(** * lib_rtos_support / lib_soc: interrupt-mask control and the peripheral hub interface

  Embedding of
  - [lib_rtos_support/api/rtos_interrupt.h]: the five inline functions
    [rtos_interrupt_mask_get], [rtos_interrupt_mask_all],
    [rtos_interrupt_unmask_all], [rtos_interrupt_mask_set] and
    [rtos_isr_running], each a short XS1 asm template;
  - [lib_soc/src/framework/soc_peripheral_hub.h]: the channel-role and
    interrupt-status constants, and the declared hub entry points;
  - [bitstream_src/bitstream_devices.h]: the board's device-count enums. *)

From Stdlib Require Import ZArith Lia Bool.
From stdpp Require Import base list.

Local Open Scope Z_scope.

(** ** The XS1 instructions used by the asm templates *)

Module XS1.

(** Registers the templates name: the fixed register [r11] (the implicit
    destination of [getsr]) and the register bound to output operand [%0]. *)
Inductive reg := r11 | op0.

Definition reg_eqb (a b : reg) : bool :=
  match a, b with
  | r11, r11 | op0, op0 => true
  | _, _ => false
  end.

Inductive instr :=
| getsr (bits : Z)        (* r11 <- sr AND bits     *)
| clrsr (bits : Z)        (* sr  <- sr AND NOT bits *)
| setsr (bits : Z)        (* sr  <- sr OR bits      *)
| mov (dst src : reg).    (* dst <- src             *)

(** A hardware thread as far as these instructions see it: its status
    register and its general-purpose registers. *)
Record thread := Thread { sr : Z; gpr : reg -> Z }.

Definition write (r : reg) (v : Z) (f : reg -> Z) : reg -> Z :=
  fun r' => if reg_eqb r' r then v else f r'.

Definition step (i : instr) (t : thread) : thread :=
  match i with
  | getsr bits => Thread (sr t) (write r11 (Z.land (sr t) bits) (gpr t))
  | clrsr bits => Thread (Z.ldiff (sr t) bits) (gpr t)
  | setsr bits => Thread (Z.lor (sr t) bits) (gpr t)
  | mov dst src => Thread (sr t) (write dst (gpr t src) (gpr t))
  end.

Definition exec (template : list instr) (t : thread) : thread :=
  fold_left (fun t i => step i t) template t.

End XS1.

(** ** The execution context seen by C code

    The interrupt mask is ambient per-thread hardware state: the status
    register.  General-purpose registers are not part of the C-visible
    state; every template lists [r11] as a clobber and receives its result
    through the output operand. *)

Record ctx := Ctx { sr : Z }.

Definition uint32 (z : Z) : Prop := 0 <= z < 2 ^ 32.

(** Some status bit selected by [bits] is set. *)
Definition sr_flag (bits : Z) (s : ctx) : Prop :=
  exists i, 0 <= i /\ Z.testbit bits i = true /\ Z.testbit (sr s) i = true.

(** [s] and [s'] agree on every status bit outside [bits]. *)
Definition sr_same_outside (bits : Z) (s s' : ctx) : Prop :=
  forall i, Z.testbit bits i = false ->
            Z.testbit (sr s') i = Z.testbit (sr s) i.

(** The sequences of mask calls a thread can make.  [op_mask_all] discards
    the returned mask; [op_save_restore body] is
    [saved = rtos_interrupt_mask_all(); body; rtos_interrupt_mask_set(saved)]. *)
#[warnings="-register-all"]
Inductive mask_op :=
| op_mask_get
| op_mask_all
| op_unmask_all
| op_mask_set (mask : Z)
| op_save_restore (body : list mask_op).

(** No [rtos_interrupt_mask_all] whose result is thrown away. *)
Fixpoint saves_every_mask_all (o : mask_op) : bool :=
  match o with
  | op_mask_all => false
  | op_save_restore body => forallb saves_every_mask_all body
  | _ => true
  end.

(** No call that can turn interrupts on by itself: no
    [rtos_interrupt_unmask_all] and no [rtos_interrupt_mask_set] of a
    literal non-zero mask. *)
Fixpoint never_unmasks (o : mask_op) : bool :=
  match o with
  | op_unmask_all => false
  | op_mask_set mask => mask =? 0
  | op_save_restore body => forallb never_unmasks body
  | _ => true
  end.

Section rtos_interrupt.

(** [XS1_SR_IEBLE_MASK] and [XS1_SR_INK_MASK] come from the toolchain
    header <xs1.h>; they are parameters here.  [_XCORE_C_STR] (from
    rtos_interrupt_impl.h) pastes the mask into the template as the
    instruction's immediate operand.  [rtos_interrupt_unmask_all] writes
    the mnemonic and the pasted operand as adjacent string literals with no
    blank between them; the template is read as [setsr] with that
    operand, like the [clrsr] of [rtos_interrupt_mask_all]. *)
Variable XS1_SR_IEBLE_MASK : Z.
Variable XS1_SR_INK_MASK : Z.

(** Register contents when an asm statement is entered.  No template has
    an input operand, so they are arbitrary. *)
Variable entry : XS1.reg -> Z.

Definition interrupts_enabled : ctx -> Prop := sr_flag XS1_SR_IEBLE_MASK.
Definition kernel_mode : ctx -> Prop := sr_flag XS1_SR_INK_MASK.

(** [asm volatile(template : outputs : : clobbers)]: run the template on
    the thread and hand back the registers (for the output operand) and
    the context. *)
Definition asm_volatile (template : list XS1.instr) (s : ctx)
  : (XS1.reg -> Z) * ctx :=
  let t := XS1.exec template (XS1.Thread (sr s) entry) in
  (XS1.gpr t, Ctx (XS1.sr t)).

Definition rtos_interrupt_mask_get (s : ctx) : Z * ctx :=
  let '(out, s) :=
    asm_volatile [XS1.getsr XS1_SR_IEBLE_MASK;
                  XS1.mov XS1.op0 XS1.r11] s in
  let mask := out XS1.op0 in
  (mask, s).

Definition rtos_interrupt_mask_all (s : ctx) : Z * ctx :=
  let '(out, s) :=
    asm_volatile [XS1.getsr XS1_SR_IEBLE_MASK;
                  XS1.mov XS1.op0 XS1.r11;
                  XS1.clrsr XS1_SR_IEBLE_MASK] s in
  let mask := out XS1.op0 in
  (mask, s).

Definition rtos_interrupt_unmask_all (s : ctx) : unit * ctx :=
  let '(_, s) := asm_volatile [XS1.setsr XS1_SR_IEBLE_MASK] s in
  (tt, s).

(** [mask] is a [uint32_t]; it is only compared with zero. *)
Definition rtos_interrupt_mask_set (mask : Z) (s : ctx) : unit * ctx :=
  if negb (mask =? 0) then rtos_interrupt_unmask_all s else (tt, s).

Definition rtos_isr_running (s : ctx) : Z * ctx :=
  let '(out, s) :=
    asm_volatile [XS1.getsr XS1_SR_INK_MASK;
                  XS1.mov XS1.op0 XS1.r11] s in
  let kernel_mode := out XS1.op0 in
  (kernel_mode, s).

Fixpoint run_op (o : mask_op) (s : ctx) : ctx :=
  match o with
  | op_mask_get => (rtos_interrupt_mask_get s).2
  | op_mask_all => (rtos_interrupt_mask_all s).2
  | op_unmask_all => (rtos_interrupt_unmask_all s).2
  | op_mask_set mask => (rtos_interrupt_mask_set mask s).2
  | op_save_restore body =>
      let '(saved, s) := rtos_interrupt_mask_all s in
      let s := fold_left (fun s o => run_op o s) body s in
      (rtos_interrupt_mask_set saved s).2
  end.

Definition run_ops (body : list mask_op) (s : ctx) : ctx :=
  fold_left (fun s o => run_op o s) body s.

(** What a call that goes from [s] to [s'] must leave alone: every status
    bit outside the interrupt-enable mask, and with them the value
    [rtos_isr_running] reads. *)
Definition leaves_rest_of_sr (s s' : ctx) : Prop :=
  sr_same_outside XS1_SR_IEBLE_MASK s s' /\
  (rtos_isr_running s').1 = (rtos_isr_running s).1.

(** The status words within reach of [s0] by mask calls: the word of [s0]
    itself, that word with the interrupt-enable bits cleared, and that
    word with them set. *)
Definition mask_reachable (s0 s : ctx) : Prop :=
  sr s = sr s0 \/
  sr s = Z.ldiff (sr s0) XS1_SR_IEBLE_MASK \/
  sr s = Z.lor (sr s0) XS1_SR_IEBLE_MASK.

End rtos_interrupt.

(** The values used in the worked examples, after the XS1 status-register
    layout: [eeble] is bit 0, [ieble] bit 1, [inenb] bit 2, [inint] bit 3,
    [ink] bit 4. *)
Definition xs1_ieble_mask : Z := 0x2.
Definition xs1_ink_mask : Z := 0x10.
Definition regs0 : XS1.reg -> Z := fun _ => 0.

(** ** soc_peripheral_hub.h: constants *)

Definition SOC_PERIPHERAL_CHANNEL_COUNT : nat := 3.
Definition SOC_PERIPHERAL_FROM_DMA_CH : nat := 0.
Definition SOC_PERIPHERAL_TO_DMA_CH : nat := 1.
Definition SOC_PERIPHERAL_CONTROL_CH : nat := 2.

Definition SOC_PERIPHERAL_ISR_DMA_RX_DONE_BM : Z := 0x00000001.
Definition SOC_PERIPHERAL_ISR_DMA_TX_DONE_BM : Z := 0x00000002.

(** ** bitstream_devices.h: the board's device tables

    Each [enum { ..._A, ..., ..._COUNT }] numbers its enumerators from zero,
    so the last one is the number of devices of that kind. *)

Definition BITSTREAM_MICARRAY_DEVICE_A : nat := 0.
Definition BITSTREAM_MICARRAY_DEVICE_COUNT : nat := S BITSTREAM_MICARRAY_DEVICE_A.

Definition BITSTREAM_ETHERNET_DEVICE_A : nat := 0.
Definition BITSTREAM_ETHERNET_DEVICE_COUNT : nat := S BITSTREAM_ETHERNET_DEVICE_A.

Definition BITSTREAM_I2S_DEVICE_A : nat := 0.
Definition BITSTREAM_I2S_DEVICE_COUNT : nat := S BITSTREAM_I2S_DEVICE_A.

Definition BITSTREAM_I2C_DEVICE_A : nat := 0.
Definition BITSTREAM_I2C_DEVICE_COUNT : nat := S BITSTREAM_I2C_DEVICE_A.

Definition BITSTREAM_GPIO_DEVICE_A : nat := 0.
Definition BITSTREAM_GPIO_DEVICE_B : nat := S BITSTREAM_GPIO_DEVICE_A.
Definition BITSTREAM_GPIO_DEVICE_COUNT : nat := S BITSTREAM_GPIO_DEVICE_B.

(** ** The registration table and the hub

    soc_peripheral_hub.h only declares these functions and leaves
    [struct soc_peripheral] opaque; their bodies belong to the hub's
    implementation file, not to the headers embedded here. *)

Abbreviation chanend := Z (only parsing).

(** One registration record: the channel triple
    [chanend c[SOC_PERIPHERAL_CHANNEL_COUNT]], what
    [soc_peripheral_handler_register] attached ([core_id], [app_data],
    [isr]) and the pending interrupt status bits. *)
Record soc_peripheral := Peripheral {
  channels : list chanend;
  handler : option (Z * Z * Z);
  interrupt_status : Z
}.

(** [soc_peripheral_t] is a pointer to a record; it is modelled as the
    record's index in the table, [None] being the null pointer. *)
Abbreviation soc_peripheral_t := (option nat).

Definition valid_channel_triple (c : list chanend) : Prop :=
  length c = SOC_PERIPHERAL_CHANNEL_COUNT.

Definition peripheral_of (device : soc_peripheral_t)
  (table : list soc_peripheral) : option soc_peripheral :=
  d ← device; table !! d.

(** Modelled from the spec: the body of [soc_peripheral_register]
    (declared at soc_peripheral_hub.h:25) is missing.  "Allocates a new
    Registration Record, stores the Channel Triple, returns a fresh opaque
    handle.  Fails (returns a null/invalid handle) if the table's fixed
    capacity is exhausted."  [capacity] is the boot-time constant sized
    from the board's device tables. *)
Definition soc_peripheral_register (capacity : nat) (c : list chanend)
  (table : list soc_peripheral) : soc_peripheral_t * list soc_peripheral :=
  if (length table <? capacity)%nat
  then (Some (length table), table ++ [Peripheral c None 0])
  else (None, table).

(** Modelled from the spec: the body of [soc_peripheral_ctrl_chanend]
    (soc_peripheral_hub.h:43) is missing.  "Returns the control channel
    endpoint" of the handle; nothing is returned for a handle that names
    no record. *)
Definition soc_peripheral_ctrl_chanend (device : soc_peripheral_t)
  (table : list soc_peripheral) : option chanend :=
  p ← peripheral_of device table; channels p !! SOC_PERIPHERAL_CONTROL_CH.

(** The two completion events of section 4.4 step 3 and their status bits. *)
Inductive dma_completion := DMA_RX_DONE | DMA_TX_DONE.

Definition completion_bm (e : dma_completion) : Z :=
  match e with
  | DMA_RX_DONE => SOC_PERIPHERAL_ISR_DMA_RX_DONE_BM
  | DMA_TX_DONE => SOC_PERIPHERAL_ISR_DMA_TX_DONE_BM
  end.

(** Modelled from the spec: the hub's completion signalling (inside
    [soc_peripheral_hub], declared at soc_peripheral_hub.h:76) is missing.
    "When either transfer completes at the hardware level, the Hub sets the
    corresponding bit in the peripheral's Interrupt Status Bitmask." *)
Definition hub_dma_complete (e : dma_completion) (d : nat)
  (table : list soc_peripheral) : list soc_peripheral :=
  alter (fun p => Peripheral (channels p) (handler p)
                    (Z.lor (interrupt_status p) (completion_bm e))) d table.

(** Modelled from the spec: the body of [soc_peripheral_interrupt_status]
    (soc_peripheral_hub.h:48) is missing.  "Read the pending status bits for
    a handle"; whether the read also clears them is left open by the spec
    and is not modelled. *)
Definition soc_peripheral_interrupt_status (device : soc_peripheral_t)
  (table : list soc_peripheral) : option Z :=
  interrupt_status <$> peripheral_of device table.

(** Modelled from the spec: the body of [soc_peripheral_rx_dma_xfer]
    (soc_peripheral_hub.h:66) is missing.  "Transfers at most [max_length]
    bytes from the DMA engine ... and returns the actual transferred length
    (0 if no data is currently available -- not an error).  If more data is
    pending than [max_length] allows, only [max_length] bytes are delivered
    per call; the remainder must be retrieved by a subsequent call."
    [c] stands for the bytes pending on the channel; the result is the
    returned length, the buffer [data] afterwards and the bytes still
    pending. *)
Definition soc_peripheral_rx_dma_xfer (c : list Byte.byte)
  (data : list Byte.byte) (max_length : nat)
  : nat * list Byte.byte * list Byte.byte :=
  let actual_length := Nat.min max_length (length c) in
  (actual_length, take actual_length c ++ drop actual_length data,
   drop actual_length c).

Definition uint16 (n : nat) : Prop := Z.of_nat n < 2 ^ 16.

(** * Properties *)

(** ** Bitwise facts about the status register *)

Ltac bitwise :=
  apply Z.bits_inj'; intros ?i ?Hi;
  repeat first [rewrite Z.land_spec | rewrite Z.lor_spec
               | rewrite Z.ldiff_spec | rewrite Z.bits_0].

Lemma Z_nonzero_bit (z : Z) :
  z <> 0 -> exists i, 0 <= i /\ Z.testbit z i = true.
Proof.
  intros Hz. destruct (Z.lt_trichotomy z 0) as [Hneg | [-> | Hpos]].
  - exists (Z.succ (Z.log2 (Z.abs z))). split.
    + pose proof (Z.log2_nonneg (Z.abs z)). lia.
    + apply Z.bits_iff_neg; [lia | exact Hneg].
  - contradiction.
  - exists (Z.log2 z). split; [apply Z.log2_nonneg | now apply Z.bit_log2].
Qed.

Lemma sr_flag_land (bits : Z) (s : ctx) :
  Z.land (sr s) bits <> 0 <-> sr_flag bits s.
Proof.
  split.
  - intros Hnz. destruct (Z_nonzero_bit _ Hnz) as (i & Hi & Hbit).
    rewrite Z.land_spec in Hbit. apply andb_true_iff in Hbit as [Hs Hb].
    exists i. auto.
  - intros (i & Hi & Hb & Hs) Hz.
    assert (Z.testbit (Z.land (sr s) bits) i = true) as Hbit
      by (rewrite Z.land_spec, Hs, Hb; reflexivity).
    rewrite Hz, Z.bits_0 in Hbit. discriminate.
Qed.

Lemma land_ldiff_same (a m : Z) : Z.land (Z.ldiff a m) m = 0.
Proof. bitwise. destruct (Z.testbit a i), (Z.testbit m i); reflexivity. Qed.

Lemma land_lor_same (a m : Z) : Z.land (Z.lor a m) m = m.
Proof. bitwise. destruct (Z.testbit a i), (Z.testbit m i); reflexivity. Qed.

Lemma ldiff_ldiff_same (a m : Z) : Z.ldiff (Z.ldiff a m) m = Z.ldiff a m.
Proof. bitwise. destruct (Z.testbit a i), (Z.testbit m i); reflexivity. Qed.

Lemma ldiff_lor_same (a m : Z) : Z.ldiff (Z.lor a m) m = Z.ldiff a m.
Proof. bitwise. destruct (Z.testbit a i), (Z.testbit m i); reflexivity. Qed.

(** Two words that agree outside [m] agree on every mask disjoint from [m]. *)
Lemma land_outside (a b m k : Z) :
  Z.land m k = 0 -> Z.ldiff a m = Z.ldiff b m -> Z.land a k = Z.land b k.
Proof.
  intros Hdisj Hab. bitwise.
  assert (Z.testbit (Z.land m k) i = false) as Hmk
    by (rewrite Hdisj; apply Z.bits_0).
  assert (Z.testbit (Z.ldiff a m) i = Z.testbit (Z.ldiff b m) i) as Hi'
    by (rewrite Hab; reflexivity).
  rewrite Z.land_spec in Hmk. rewrite !Z.ldiff_spec in Hi'.
  destruct (Z.testbit a i), (Z.testbit b i), (Z.testbit m i),
    (Z.testbit k i); simpl in *; congruence.
Qed.

Lemma ldiff_testbit (a b m : Z) :
  Z.ldiff a m = Z.ldiff b m <->
  forall i, Z.testbit m i = false -> Z.testbit a i = Z.testbit b i.
Proof.
  split.
  - intros Hab i Hm.
    assert (Z.testbit (Z.ldiff a m) i = Z.testbit (Z.ldiff b m) i) as Hi
      by (rewrite Hab; reflexivity).
    rewrite !Z.ldiff_spec, Hm, !andb_true_r in Hi. exact Hi.
  - intros Hout. bitwise. destruct (Z.testbit m i) eqn:Hm.
    + rewrite !andb_false_r. reflexivity.
    + rewrite (Hout i Hm). reflexivity.
Qed.

(** The words stay 32 bits wide: no instruction of the templates needs a
    truncation. *)
Lemma uint32_land_ones (z : Z) : uint32 z <-> Z.land z (Z.ones 32) = z.
Proof.
  unfold uint32. rewrite Z.land_ones by lia. split.
  - intros Hz. apply Z.mod_small, Hz.
  - intros <-. apply Z.mod_pos_bound. lia.
Qed.

Lemma uint32_land (a b : Z) : uint32 a -> uint32 (Z.land a b).
Proof.
  rewrite !uint32_land_ones. intros Ha.
  rewrite <- Z.land_assoc, (Z.land_comm b), Z.land_assoc, Ha. reflexivity.
Qed.

Lemma uint32_lor (a b : Z) : uint32 a -> uint32 b -> uint32 (Z.lor a b).
Proof.
  rewrite !uint32_land_ones. intros Ha Hb.
  rewrite Z.land_lor_distr_l, Ha, Hb. reflexivity.
Qed.

Lemma uint32_ldiff (a b : Z) : uint32 a -> uint32 (Z.ldiff a b).
Proof. rewrite Z.ldiff_land. apply uint32_land. Qed.

(** ** rtos_interrupt.h *)

Section rtos_interrupt_properties.

Variables XS1_SR_IEBLE_MASK XS1_SR_INK_MASK : Z.
Variable entry : XS1.reg -> Z.

(** What the rest of the library relies on from <xs1.h>: the
    interrupt-enable mask selects at least one status bit, and none that
    the kernel-mode mask selects. *)
Hypothesis IEBLE_nonzero : XS1_SR_IEBLE_MASK <> 0.
Hypothesis IEBLE_INK_disjoint : Z.land XS1_SR_IEBLE_MASK XS1_SR_INK_MASK = 0.

Local Abbreviation rtos_interrupt_mask_get :=
  (rtos_interrupt_mask_get XS1_SR_IEBLE_MASK entry).
Local Abbreviation rtos_interrupt_mask_all :=
  (rtos_interrupt_mask_all XS1_SR_IEBLE_MASK entry).
Local Abbreviation rtos_interrupt_unmask_all :=
  (rtos_interrupt_unmask_all XS1_SR_IEBLE_MASK entry).
Local Abbreviation rtos_interrupt_mask_set :=
  (rtos_interrupt_mask_set XS1_SR_IEBLE_MASK entry).
Local Abbreviation rtos_isr_running := (rtos_isr_running XS1_SR_INK_MASK entry).
Local Abbreviation interrupts_enabled := (interrupts_enabled XS1_SR_IEBLE_MASK).
Local Abbreviation kernel_mode := (kernel_mode XS1_SR_INK_MASK).
Local Abbreviation run_op := (run_op XS1_SR_IEBLE_MASK entry).
Local Abbreviation run_ops := (run_ops XS1_SR_IEBLE_MASK entry).
Local Abbreviation leaves_rest_of_sr :=
  (leaves_rest_of_sr XS1_SR_IEBLE_MASK XS1_SR_INK_MASK entry).

(** *** What each template computes *)

Lemma rtos_interrupt_mask_get_eq (s : ctx) :
  rtos_interrupt_mask_get s = (Z.land (sr s) XS1_SR_IEBLE_MASK, s).
Proof. destruct s; reflexivity. Qed.

Lemma rtos_interrupt_mask_all_eq (s : ctx) :
  rtos_interrupt_mask_all s =
  (Z.land (sr s) XS1_SR_IEBLE_MASK, Ctx (Z.ldiff (sr s) XS1_SR_IEBLE_MASK)).
Proof. reflexivity. Qed.

Lemma rtos_interrupt_unmask_all_eq (s : ctx) :
  rtos_interrupt_unmask_all s = (tt, Ctx (Z.lor (sr s) XS1_SR_IEBLE_MASK)).
Proof. reflexivity. Qed.

Lemma rtos_interrupt_mask_set_eq (mask : Z) (s : ctx) :
  rtos_interrupt_mask_set mask s =
  if decide (mask = 0) then (tt, s) else rtos_interrupt_unmask_all s.
Proof.
  destruct (decide (mask = 0)) as [-> | Hnz]; [reflexivity |].
  destruct mask; [contradiction | reflexivity | reflexivity].
Qed.

Lemma rtos_isr_running_eq (s : ctx) :
  rtos_isr_running s = (Z.land (sr s) XS1_SR_INK_MASK, s).
Proof. destruct s; reflexivity. Qed.

Lemma interrupts_enabled_iff (s : ctx) :
  interrupts_enabled s <-> Z.land (sr s) XS1_SR_IEBLE_MASK <> 0.
Proof. symmetry. apply sr_flag_land. Qed.

Lemma interrupts_disabled_iff (s : ctx) :
  ~ interrupts_enabled s <-> Z.land (sr s) XS1_SR_IEBLE_MASK = 0.
Proof. rewrite interrupts_enabled_iff. lia. Qed.

Lemma mask_operations_uint32 (mask : Z) (s : ctx) :
  uint32 XS1_SR_IEBLE_MASK -> uint32 (sr s) ->
  uint32 (rtos_interrupt_mask_get s).1 /\
  uint32 (rtos_interrupt_mask_all s).1 /\
  uint32 (sr (rtos_interrupt_mask_all s).2) /\
  uint32 (sr (rtos_interrupt_unmask_all s).2) /\
  uint32 (sr (rtos_interrupt_mask_set mask s).2) /\
  uint32 (rtos_isr_running s).1.
Proof.
  clear IEBLE_nonzero IEBLE_INK_disjoint. intros Hmask Hsr.
  rewrite rtos_interrupt_mask_set_eq, rtos_interrupt_mask_get_eq,
    rtos_isr_running_eq, !rtos_interrupt_mask_all_eq,
    !rtos_interrupt_unmask_all_eq.
  destruct (decide (mask = 0)); simpl;
    refine (conj _ (conj _ (conj _ (conj _ (conj _ _)))));
    auto using uint32_land, uint32_lor, uint32_ldiff.
Qed.

(** C8. [rtos_interrupt_mask_get] returns the interrupt-enable bits of the
    status register, a value that is non-zero exactly when interrupts are
    enabled, and hands back the context it was given, unchanged. *)
Theorem rtos_interrupt_mask_get_pure (s : ctx) :
  (rtos_interrupt_mask_get s).2 = s /\
  (rtos_interrupt_mask_get s).1 = Z.land (sr s) XS1_SR_IEBLE_MASK /\
  ((rtos_interrupt_mask_get s).1 <> 0 <-> interrupts_enabled s).
Proof.
  rewrite rtos_interrupt_mask_get_eq. simpl.
  repeat split; try apply sr_flag_land.
Qed.

(** C3. [rtos_interrupt_mask_all] returns what [rtos_interrupt_mask_get]
    would have returned just before it, and leaves interrupts disabled: a
    following [rtos_interrupt_mask_get] returns zero. *)
Theorem rtos_interrupt_mask_all_spec (s : ctx) :
  (rtos_interrupt_mask_all s).1 = (rtos_interrupt_mask_get s).1 /\
  (rtos_interrupt_mask_get (rtos_interrupt_mask_all s).2).1 = 0 /\
  ~ interrupts_enabled (rtos_interrupt_mask_all s).2.
Proof.
  rewrite rtos_interrupt_mask_all_eq, !rtos_interrupt_mask_get_eq. simpl.
  repeat split.
  - apply land_ldiff_same.
  - apply interrupts_disabled_iff. apply land_ldiff_same.
Qed.

Lemma unmask_all_enables (s : ctx) :
  Z.land (sr (rtos_interrupt_unmask_all s).2) XS1_SR_IEBLE_MASK <> 0.
Proof.
  rewrite rtos_interrupt_unmask_all_eq. simpl.
  rewrite land_lor_same. exact IEBLE_nonzero.
Qed.

(** C7. Whatever the mask was, after [rtos_interrupt_unmask_all] interrupts
    are enabled and [rtos_interrupt_mask_get] returns a non-zero value. *)
Theorem rtos_interrupt_unmask_all_spec (s : ctx) :
  (rtos_interrupt_mask_get (rtos_interrupt_unmask_all s).2).1 <> 0 /\
  interrupts_enabled (rtos_interrupt_unmask_all s).2.
Proof.
  rewrite rtos_interrupt_mask_get_eq. cbn [fst].
  split; [| apply interrupts_enabled_iff]; apply unmask_all_enables.
Qed.

(** C2. A non-zero [mask] makes [rtos_interrupt_mask_set] behave exactly as
    [rtos_interrupt_unmask_all], whichever bits it has, and interrupts are
    enabled afterwards; a zero [mask] changes nothing; so no call ever
    disables interrupts that were enabled. *)
Theorem rtos_interrupt_mask_set_spec (mask : Z) (s : ctx) :
  (mask <> 0 ->
   rtos_interrupt_mask_set mask s = rtos_interrupt_unmask_all s /\
   interrupts_enabled (rtos_interrupt_mask_set mask s).2) /\
  (mask = 0 -> rtos_interrupt_mask_set mask s = (tt, s)) /\
  (interrupts_enabled s ->
   interrupts_enabled (rtos_interrupt_mask_set mask s).2).
Proof.
  rewrite rtos_interrupt_mask_set_eq.
  destruct (decide (mask = 0)) as [Hz | Hnz]; repeat split; try congruence.
  - intros Hen. exact Hen.
  - apply interrupts_enabled_iff, unmask_all_enables.
  - intros _. apply interrupts_enabled_iff, unmask_all_enables.
Qed.

(** *** The frame of the mask operations *)

Lemma sr_same_outside_ldiff (s s' : ctx) :
  sr_same_outside XS1_SR_IEBLE_MASK s s' <->
  Z.ldiff (sr s') XS1_SR_IEBLE_MASK = Z.ldiff (sr s) XS1_SR_IEBLE_MASK.
Proof. symmetry. apply ldiff_testbit. Qed.

Lemma leaves_rest_of_sr_ldiff (s s' : ctx) :
  Z.ldiff (sr s') XS1_SR_IEBLE_MASK = Z.ldiff (sr s) XS1_SR_IEBLE_MASK ->
  leaves_rest_of_sr s s'.
Proof.
  intros Hout. split; [now apply sr_same_outside_ldiff |].
  rewrite !rtos_isr_running_eq. simpl.
  now apply (land_outside _ _ XS1_SR_IEBLE_MASK).
Qed.

Lemma rtos_interrupt_mask_set_frame (mask : Z) (s : ctx) :
  Z.ldiff (sr (rtos_interrupt_mask_set mask s).2) XS1_SR_IEBLE_MASK =
  Z.ldiff (sr s) XS1_SR_IEBLE_MASK.
Proof.
  rewrite rtos_interrupt_mask_set_eq. destruct (decide (mask = 0)).
  - reflexivity.
  - apply ldiff_lor_same.
Qed.

(** Induction over call sequences, with the hypothesis for every call of a
    save/restore body. *)
Lemma mask_op_nested_ind (P : mask_op -> Prop) :
  P op_mask_get -> P op_mask_all -> P op_unmask_all ->
  (forall mask, P (op_mask_set mask)) ->
  (forall body, Forall P body -> P (op_save_restore body)) ->
  forall o, P o.
Proof.
  intros Hget Hall Hunmask Hset Hsave. fix IH 1.
  intros [ | | | mask | body];
    [exact Hget | exact Hall | exact Hunmask | apply Hset | apply Hsave].
  induction body as [ | o body IHbody]; constructor; [apply IH | exact IHbody].
Qed.

Lemma run_op_save_restore (body : list mask_op) (s : ctx) :
  run_op (op_save_restore body) s =
  (rtos_interrupt_mask_set (rtos_interrupt_mask_all s).1
     (run_ops body (rtos_interrupt_mask_all s).2)).2.
Proof. reflexivity. Qed.

Lemma run_ops_cons (o : mask_op) (body : list mask_op) (s : ctx) :
  run_ops (o :: body) s = run_ops body (run_op o s).
Proof. reflexivity. Qed.

Lemma run_ops_preserves (Q : ctx -> Prop) (body : list mask_op) :
  Forall (fun o => forall s, Q s -> Q (run_op o s)) body ->
  forall s, Q s -> Q (run_ops body s).
Proof.
  induction 1 as [ | o body Ho _ IH]; intros s Hs; [exact Hs |].
  rewrite run_ops_cons. apply IH, Ho, Hs.
Qed.

Lemma run_op_frame (o : mask_op) (s0 s : ctx) :
  Z.ldiff (sr s) XS1_SR_IEBLE_MASK = Z.ldiff (sr s0) XS1_SR_IEBLE_MASK ->
  Z.ldiff (sr (run_op o s)) XS1_SR_IEBLE_MASK =
  Z.ldiff (sr s0) XS1_SR_IEBLE_MASK.
Proof.
  revert s. induction o as [ | | | mask | body IH] using mask_op_nested_ind;
    intros s Hs.
  - change (run_op op_mask_get s) with (rtos_interrupt_mask_get s).2.
    rewrite rtos_interrupt_mask_get_eq. exact Hs.
  - simpl. rewrite ldiff_ldiff_same. exact Hs.
  - simpl. rewrite ldiff_lor_same. exact Hs.
  - change (run_op (op_mask_set mask) s)
      with (rtos_interrupt_mask_set mask s).2.
    rewrite rtos_interrupt_mask_set_frame. exact Hs.
  - rewrite run_op_save_restore, rtos_interrupt_mask_set_frame.
    apply (run_ops_preserves
             (fun s => Z.ldiff (sr s) XS1_SR_IEBLE_MASK =
                       Z.ldiff (sr s0) XS1_SR_IEBLE_MASK)); [exact IH |].
    simpl. rewrite ldiff_ldiff_same. exact Hs.
Qed.

(** C10. Each of the four mask operations leaves every status bit outside
    the interrupt-enable mask as it was, and so leaves the value read by
    [rtos_isr_running] as it was. *)
Theorem mask_operations_frame (mask : Z) (s : ctx) :
  leaves_rest_of_sr s (rtos_interrupt_mask_get s).2 /\
  leaves_rest_of_sr s (rtos_interrupt_mask_all s).2 /\
  leaves_rest_of_sr s (rtos_interrupt_unmask_all s).2 /\
  leaves_rest_of_sr s (rtos_interrupt_mask_set mask s).2.
Proof.
  refine (conj _ (conj _ (conj _ _))); apply leaves_rest_of_sr_ldiff.
  - rewrite rtos_interrupt_mask_get_eq. reflexivity.
  - apply ldiff_ldiff_same.
  - apply ldiff_lor_same.
  - apply rtos_interrupt_mask_set_frame.
Qed.

(** C6. [rtos_isr_running] is non-zero exactly in kernel mode and changes
    nothing; two contexts that agree on kernel mode give the same truth
    value whatever their masks; its value is fixed by the kernel-mode bits
    alone, so two contexts that differ only in interrupt-enable bits give
    the same value, and so do the contexts before and after any sequence
    of mask calls. *)
Theorem rtos_isr_running_spec (s : ctx) :
  (rtos_isr_running s).2 = s /\
  ((rtos_isr_running s).1 <> 0 <-> kernel_mode s) /\
  (forall s' : ctx,
     (kernel_mode s' <-> kernel_mode s) ->
     ((rtos_isr_running s').1 <> 0 <-> (rtos_isr_running s).1 <> 0)) /\
  (forall s' : ctx,
     Z.ldiff (sr s') XS1_SR_IEBLE_MASK = Z.ldiff (sr s) XS1_SR_IEBLE_MASK ->
     (rtos_isr_running s').1 = (rtos_isr_running s).1) /\
  (forall body : list mask_op,
     (rtos_isr_running (run_ops body s)).1 = (rtos_isr_running s).1).
Proof.
  assert (forall s' : ctx,
     Z.ldiff (sr s') XS1_SR_IEBLE_MASK = Z.ldiff (sr s) XS1_SR_IEBLE_MASK ->
     (rtos_isr_running s').1 = (rtos_isr_running s).1) as Hmask
    by (intros s' Hout; now apply leaves_rest_of_sr_ldiff).
  refine (conj _ (conj _ (conj _ (conj Hmask _)))).
  - rewrite rtos_isr_running_eq. reflexivity.
  - rewrite rtos_isr_running_eq. simpl. apply sr_flag_land.
  - intros s' Hsame. rewrite !rtos_isr_running_eq. simpl.
    rewrite !sr_flag_land. exact Hsame.
  - intros body. apply Hmask.
    apply (run_ops_preserves
             (fun s' => Z.ldiff (sr s') XS1_SR_IEBLE_MASK =
                        Z.ldiff (sr s) XS1_SR_IEBLE_MASK)); [| reflexivity].
    apply Forall_forall. intros o _ s' Hs'. now apply run_op_frame.
Qed.

(** *** Saving and restoring the mask *)

Lemma never_unmasks_run_op (o : mask_op) :
  never_unmasks o = true ->
  forall s, Z.land (sr s) XS1_SR_IEBLE_MASK = 0 ->
            Z.land (sr (run_op o s)) XS1_SR_IEBLE_MASK = 0.
Proof.
  induction o as [ | | | mask | body IH] using mask_op_nested_ind;
    simpl never_unmasks; intros Hquiet s Hs.
  - change (run_op op_mask_get s) with (rtos_interrupt_mask_get s).2.
    rewrite rtos_interrupt_mask_get_eq. exact Hs.
  - apply land_ldiff_same.
  - discriminate.
  - apply Z.eqb_eq in Hquiet as ->. exact Hs.
  - rewrite run_op_save_restore, rtos_interrupt_mask_all_eq. simpl fst.
    rewrite Hs, rtos_interrupt_mask_set_eq. simpl.
    apply (run_ops_preserves
             (fun s => Z.land (sr s) XS1_SR_IEBLE_MASK = 0));
      [| apply land_ldiff_same].
    rewrite forallb_forall in Hquiet. rewrite Forall_forall in IH |- *.
    intros o Ho. apply IH; [exact Ho |]. apply Hquiet, list_elem_of_In, Ho.
Qed.

Lemma never_unmasks_run_ops (body : list mask_op) (s : ctx) :
  forallb never_unmasks body = true ->
  Z.land (sr s) XS1_SR_IEBLE_MASK = 0 ->
  Z.land (sr (run_ops body s)) XS1_SR_IEBLE_MASK = 0.
Proof.
  intros Hquiet.
  apply (run_ops_preserves (fun s => Z.land (sr s) XS1_SR_IEBLE_MASK = 0)).
  rewrite forallb_forall in Hquiet. apply Forall_forall.
  intros o Ho. apply never_unmasks_run_op, Hquiet, list_elem_of_In, Ho.
Qed.

(** C1, as the code has it.  After
    [saved = rtos_interrupt_mask_all(); body; rtos_interrupt_mask_set(saved)]
    the enabled/disabled state read by [rtos_interrupt_mask_get] is the one
    from before the save exactly when interrupts were enabled before the
    save or are still disabled when the restore runs.  That is the case for
    every [body] free of [rtos_interrupt_unmask_all] and of
    [rtos_interrupt_mask_set] with a non-zero literal, whatever else it
    calls and however it nests further save/restore pairs. *)
Theorem save_restore_spec (body : list mask_op) (s : ctx) :
  let restored := run_op (op_save_restore body) s in
  let at_restore := run_ops body (rtos_interrupt_mask_all s).2 in
  (((rtos_interrupt_mask_get restored).1 <> 0 <->
    (rtos_interrupt_mask_get s).1 <> 0) <->
   (interrupts_enabled s \/ ~ interrupts_enabled at_restore)) /\
  (forallb never_unmasks body = true ->
   ((rtos_interrupt_mask_get restored).1 <> 0 <->
    (rtos_interrupt_mask_get s).1 <> 0)).
Proof.
  clear IEBLE_nonzero IEBLE_INK_disjoint. intros restored at_restore.
  assert (forallb never_unmasks body = true ->
          Z.land (sr at_restore) XS1_SR_IEBLE_MASK = 0) as Hquiet.
  { intros Hq. apply never_unmasks_run_ops; [exact Hq |].
    apply land_ldiff_same. }
  subst restored. rewrite run_op_save_restore. fold at_restore.
  rewrite rtos_interrupt_mask_all_eq, rtos_interrupt_mask_set_eq.
  rewrite !rtos_interrupt_mask_get_eq, !interrupts_enabled_iff.
  simpl fst.
  destruct (decide (Z.land (sr s) XS1_SR_IEBLE_MASK = 0)) as [Hoff | Hon].
  - simpl. split; [lia |]. intros Hq. specialize (Hquiet Hq). lia.
  - rewrite rtos_interrupt_unmask_all_eq. simpl.
    rewrite land_lor_same.
    assert (XS1_SR_IEBLE_MASK <> 0)
      by (intros Hm; rewrite Hm, Z.land_0_r in Hon; contradiction).
    split; [lia | intros _; lia].
Qed.

(** With a one-bit interrupt-enable mask the restored value is the saved
    value itself, not just its truth value. *)
Lemma save_restore_value (body : list mask_op) (s : ctx) :
  (forall x, Z.land x XS1_SR_IEBLE_MASK = 0 \/
             Z.land x XS1_SR_IEBLE_MASK = XS1_SR_IEBLE_MASK) ->
  forallb never_unmasks body = true ->
  (rtos_interrupt_mask_get (run_op (op_save_restore body) s)).1 =
  (rtos_interrupt_mask_get s).1.
Proof.
  intros Hbit Hq.
  rewrite run_op_save_restore, rtos_interrupt_mask_all_eq.
  rewrite rtos_interrupt_mask_set_eq, !rtos_interrupt_mask_get_eq.
  simpl fst.
  destruct (decide (Z.land (sr s) XS1_SR_IEBLE_MASK = 0)) as [Hoff | Hon].
  - simpl. rewrite Hoff. apply never_unmasks_run_ops; [exact Hq |].
    apply land_ldiff_same.
  - rewrite rtos_interrupt_unmask_all_eq. simpl. rewrite land_lor_same.
    destruct (Hbit (sr s)); congruence.
Qed.

End rtos_interrupt_properties.

(** C1 as stated fails: interrupts are disabled, the mask is saved (zero),
    the body calls [rtos_interrupt_unmask_all] and saves every
    [rtos_interrupt_mask_all] it makes (it makes none); restoring the saved
    zero does nothing, and [rtos_interrupt_mask_get] reads 2 where it read 0
    before the save. *)
Lemma save_restore_counterexample :
  ~ (forall (s : ctx) (body : list mask_op),
       forallb saves_every_mask_all body = true ->
       (rtos_interrupt_mask_get xs1_ieble_mask regs0
          (run_op xs1_ieble_mask regs0 (op_save_restore body) s)).1 <> 0 <->
       (rtos_interrupt_mask_get xs1_ieble_mask regs0 s).1 <> 0).
Proof.
  intros Hclaim.
  destruct (Hclaim (Ctx 0) [op_unmask_all] eq_refl) as [Hrestore _].
  apply Hrestore; [discriminate | reflexivity].
Qed.

Example unmask_inside_masked_region :
  (rtos_interrupt_mask_get xs1_ieble_mask regs0 (Ctx 0)).1 = 0 /\
  (rtos_interrupt_mask_all xs1_ieble_mask regs0 (Ctx 0)).1 = 0 /\
  (rtos_interrupt_mask_get xs1_ieble_mask regs0
     (run_op xs1_ieble_mask regs0 (op_save_restore [op_unmask_all])
        (Ctx 0))).1 = 2.
Proof. repeat split. Qed.

(** Worked instances on the XS1 layout. *)

Lemma rtos_interrupt_unmask_all_spec_witness :
  xs1_ieble_mask <> 0 /\
  (rtos_interrupt_mask_get xs1_ieble_mask regs0
     (rtos_interrupt_unmask_all xs1_ieble_mask regs0 (Ctx 0)).2).1 <> 0.
Proof.
  assert (xs1_ieble_mask <> 0) as Hmask by (unfold xs1_ieble_mask; lia).
  split; [exact Hmask |].
  apply (rtos_interrupt_unmask_all_spec xs1_ieble_mask regs0 Hmask (Ctx 0)).
Defined.

Lemma rtos_interrupt_mask_set_spec_witness :
  xs1_ieble_mask <> 0 /\
  rtos_interrupt_mask_set xs1_ieble_mask regs0 5 (Ctx 0) =
  rtos_interrupt_unmask_all xs1_ieble_mask regs0 (Ctx 0) /\
  rtos_interrupt_mask_set xs1_ieble_mask regs0 0 (Ctx 2) = (tt, Ctx 2).
Proof.
  assert (xs1_ieble_mask <> 0) as Hmask by (unfold xs1_ieble_mask; lia).
  split; [exact Hmask |]. split.
  - apply (rtos_interrupt_mask_set_spec xs1_ieble_mask regs0 Hmask 5 (Ctx 0)).
    lia.
  - apply (rtos_interrupt_mask_set_spec xs1_ieble_mask regs0 Hmask 0 (Ctx 2)).
    reflexivity.
Defined.

Lemma mask_operations_frame_witness :
  Z.land xs1_ieble_mask xs1_ink_mask = 0 /\
  leaves_rest_of_sr xs1_ieble_mask xs1_ink_mask regs0 (Ctx 0x12)
    (rtos_interrupt_mask_all xs1_ieble_mask regs0 (Ctx 0x12)).2.
Proof.
  assert (Z.land xs1_ieble_mask xs1_ink_mask = 0) as Hdisj by reflexivity.
  split; [exact Hdisj |].
  apply (mask_operations_frame xs1_ieble_mask xs1_ink_mask regs0 Hdisj 0
           (Ctx 0x12)).
Defined.

Lemma rtos_isr_running_spec_witness :
  Z.land xs1_ieble_mask xs1_ink_mask = 0 /\
  (rtos_isr_running xs1_ink_mask regs0
     (run_ops xs1_ieble_mask regs0
        [op_mask_all; op_unmask_all; op_mask_set 1] (Ctx 0x10))).1 =
  (rtos_isr_running xs1_ink_mask regs0 (Ctx 0x10)).1.
Proof.
  assert (Z.land xs1_ieble_mask xs1_ink_mask = 0) as Hdisj by reflexivity.
  split; [exact Hdisj |].
  apply (rtos_isr_running_spec xs1_ieble_mask xs1_ink_mask regs0 Hdisj
           (Ctx 0x10)).
Defined.

Lemma save_restore_spec_witness :
  forallb never_unmasks [op_mask_get; op_save_restore [op_mask_set 0]] = true /\
  ((rtos_interrupt_mask_get xs1_ieble_mask regs0
      (run_op xs1_ieble_mask regs0
         (op_save_restore [op_mask_get; op_save_restore [op_mask_set 0]])
         (Ctx 0x12))).1 <> 0 <->
   (rtos_interrupt_mask_get xs1_ieble_mask regs0 (Ctx 0x12)).1 <> 0).
Proof.
  split; [reflexivity |].
  apply (save_restore_spec xs1_ieble_mask regs0
           [op_mask_get; op_save_restore [op_mask_set 0]] (Ctx 0x12)).
  reflexivity.
Defined.

(** ** soc_peripheral_hub.h *)

Section soc_peripheral_hub_properties.

Local Open Scope nat_scope.

Lemma soc_peripheral_register_free (capacity : nat) (c : list chanend)
  (table : list soc_peripheral) :
  length table < capacity ->
  soc_peripheral_register capacity c table =
  (Some (length table), table ++ [Peripheral c None 0%Z]).
Proof.
  intros Hfree. unfold soc_peripheral_register.
  destruct (Nat.ltb_spec (length table) capacity); [reflexivity | lia].
Qed.

Lemma soc_peripheral_register_full (capacity : nat) (c : list chanend)
  (table : list soc_peripheral) :
  capacity <= length table ->
  soc_peripheral_register capacity c table = (None, table).
Proof.
  intros Hfull. unfold soc_peripheral_register.
  destruct (Nat.ltb_spec (length table) capacity); [lia | reflexivity].
Qed.

(** C5.  With room in the table, [soc_peripheral_register] returns a
    non-null handle that named no record before, binds it to a record
    holding the channel triple (so its control channel can be read back)
    and keeps every earlier record; with the table at capacity it returns
    the null handle and the table it was given. *)
Theorem soc_peripheral_register_spec (capacity : nat) (c : list chanend)
  (table : list soc_peripheral) :
  valid_channel_triple c ->
  let device := (soc_peripheral_register capacity c table).1 in
  let table' := (soc_peripheral_register capacity c table).2 in
  (length table < capacity ->
   is_Some device /\
   peripheral_of device table = None /\
   peripheral_of device table' = Some (Peripheral c None 0%Z) /\
   is_Some (soc_peripheral_ctrl_chanend device table') /\
   (forall d p, table !! d = Some p -> table' !! d = Some p) /\
   length table' = S (length table)) /\
  (capacity <= length table -> device = None /\ table' = table).
Proof.
  intros Hc. cbv zeta.
  destruct (Nat.lt_ge_cases (length table) capacity) as [Hfree | Hfull].
  - rewrite soc_peripheral_register_free by exact Hfree. cbn [fst snd].
    split; [intros _ | lia].
    assert ((table ++ [Peripheral c None 0%Z]) !! length table =
            Some (Peripheral c None 0%Z)) as Hnew
      by apply list_lookup_middle, eq_refl.
    repeat split.
    + eexists. reflexivity.
    + simpl. apply lookup_ge_None_2. lia.
    + exact Hnew.
    + unfold soc_peripheral_ctrl_chanend. simpl. rewrite Hnew. simpl.
      apply lookup_lt_is_Some. rewrite Hc. unfold
        SOC_PERIPHERAL_CONTROL_CH, SOC_PERIPHERAL_CHANNEL_COUNT. lia.
    + intros d p Hd. apply lookup_app_l_Some. exact Hd.
    + rewrite length_app. simpl. lia.
  - rewrite soc_peripheral_register_full by exact Hfull. cbn [fst snd].
    split; [lia | intros _; split; reflexivity].
Qed.

(** C4.  [soc_peripheral_rx_dma_xfer] returns a length no larger than
    [max_length]; it changes [data] only below that length, where it puts
    the bytes that were pending, and keeps the buffer's size; the bytes it
    did not deliver stay pending.  With [max_length] zero, or with nothing
    pending, it returns 0 and writes nothing. *)
Theorem soc_peripheral_rx_dma_xfer_spec (c data : list Byte.byte)
  (max_length : nat) :
  let actual_length := (soc_peripheral_rx_dma_xfer c data max_length).1.1 in
  let data' := (soc_peripheral_rx_dma_xfer c data max_length).1.2 in
  let c' := (soc_peripheral_rx_dma_xfer c data max_length).2 in
  actual_length <= max_length /\
  (forall i, actual_length <= i -> data' !! i = data !! i) /\
  (forall i, i < actual_length -> data' !! i = c !! i) /\
  (max_length <= length data -> length data' = length data) /\
  c = take actual_length c ++ c' /\
  (max_length = 0 -> actual_length = 0 /\ data' = data /\ c' = c) /\
  (c = [] -> actual_length = 0 /\ data' = data).
Proof.
  unfold soc_peripheral_rx_dma_xfer. cbn [fst snd].
  set (n := Nat.min max_length (length c)).
  assert (n <= max_length) as Hmax by (subst n; lia).
  assert (length (take n c) = n) as Htake by (rewrite length_take; lia).
  refine (conj Hmax (conj _ (conj _ (conj _ (conj _ (conj _ _)))))).
  - intros i Hi. rewrite lookup_app_r by lia.
    rewrite lookup_drop, Htake. f_equal. lia.
  - intros i Hi. rewrite lookup_app_l by lia. apply lookup_take_lt, Hi.
  - intros Hroom. rewrite length_app, length_drop, Htake. lia.
  - symmetry. apply take_drop.
  - intros ->. change n with 0. repeat split; apply drop_0.
  - intros ->. assert (n = 0) as -> by (subst n; simpl; lia).
    split; [reflexivity | apply drop_0].
Qed.

(** The returned length fits the [uint16_t] result whenever the request
    fits its [uint16_t] parameter. *)
Lemma soc_peripheral_rx_dma_xfer_uint16 (c data : list Byte.byte)
  (max_length : nat) :
  uint16 max_length ->
  uint16 (soc_peripheral_rx_dma_xfer c data max_length).1.1.
Proof. unfold uint16, soc_peripheral_rx_dma_xfer. cbn [fst]. lia. Qed.

Lemma completion_bm_pow2 (e : dma_completion) :
  completion_bm e = (2 ^ match e with DMA_RX_DONE => 0 | DMA_TX_DONE => 1 end)%Z.
Proof. destruct e; reflexivity. Qed.

Lemma completion_bm_testbit (e : dma_completion) (i : Z) :
  Z.testbit (completion_bm e) i = true <->
  i = match e with DMA_RX_DONE => 0%Z | DMA_TX_DONE => 1%Z end.
Proof.
  rewrite completion_bm_pow2.
  destruct (Z.neg_nonneg_cases i) as [Hneg | Hpos].
  - rewrite Z.testbit_neg_r by exact Hneg. destruct e; split; (discriminate || lia).
  - rewrite Z.pow2_bits_eqb by (destruct e; lia).
    rewrite Z.eqb_eq. split; congruence.
Qed.

(** C9.  The receive-complete mask is bit 0 alone and the transmit-complete
    mask bit 1 alone, so they share no bit; when the hub records a
    receive completion for a peripheral with no transmit completion
    pending, the status read for its handle has the receive bit and not
    the transmit bit. *)
Theorem interrupt_status_bits :
  SOC_PERIPHERAL_ISR_DMA_RX_DONE_BM = 0x00000001%Z /\
  SOC_PERIPHERAL_ISR_DMA_TX_DONE_BM = 0x00000002%Z /\
  (forall i, Z.testbit SOC_PERIPHERAL_ISR_DMA_RX_DONE_BM i = true <-> i = 0%Z) /\
  (forall i, Z.testbit SOC_PERIPHERAL_ISR_DMA_TX_DONE_BM i = true <-> i = 1%Z) /\
  Z.land SOC_PERIPHERAL_ISR_DMA_RX_DONE_BM
         SOC_PERIPHERAL_ISR_DMA_TX_DONE_BM = 0%Z /\
  (forall (table : list soc_peripheral) (d : nat) (p : soc_peripheral),
     table !! d = Some p ->
     Z.land (interrupt_status p) SOC_PERIPHERAL_ISR_DMA_TX_DONE_BM = 0%Z ->
     exists status,
       soc_peripheral_interrupt_status (Some d)
         (hub_dma_complete DMA_RX_DONE d table) = Some status /\
       Z.land status SOC_PERIPHERAL_ISR_DMA_RX_DONE_BM <> 0%Z /\
       Z.land status SOC_PERIPHERAL_ISR_DMA_TX_DONE_BM = 0%Z).
Proof.
  refine (conj eq_refl (conj eq_refl (conj _ (conj _ (conj eq_refl _))))).
  - apply (completion_bm_testbit DMA_RX_DONE).
  - apply (completion_bm_testbit DMA_TX_DONE).
  - intros table d p Hd Htx.
    exists (Z.lor (interrupt_status p) SOC_PERIPHERAL_ISR_DMA_RX_DONE_BM).
    split; [| split].
    + unfold soc_peripheral_interrupt_status, hub_dma_complete. simpl.
      rewrite list_lookup_alter_eq, Hd. reflexivity.
    + rewrite land_lor_same. discriminate.
    + rewrite Z.land_lor_distr_l, Htx. reflexivity.
Qed.

End soc_peripheral_hub_properties.

(** The board's two GPIO devices fill a table sized for them; a third
    registration gets the null handle and leaves the table as it was. *)
Example register_third_gpio_device :
  let capacity := BITSTREAM_GPIO_DEVICE_COUNT in
  let '(gpio_a, t1) := soc_peripheral_register capacity [10; 11; 12] [] in
  let '(gpio_b, t2) := soc_peripheral_register capacity [20; 21; 22] t1 in
  let '(gpio_c, t3) := soc_peripheral_register capacity [30; 31; 32] t2 in
  gpio_a = Some BITSTREAM_GPIO_DEVICE_A /\
  gpio_b = Some BITSTREAM_GPIO_DEVICE_B /\
  gpio_c = None /\ t3 = t2 /\
  soc_peripheral_ctrl_chanend gpio_a t3 = Some 12 /\
  soc_peripheral_ctrl_chanend gpio_b t3 = Some 22.
Proof. repeat split. Qed.

(** A ten-byte transfer completes for a freshly registered peripheral: its
    status shows receive-complete only. *)
Example rx_done_after_ten_bytes :
  let '(device, table) := soc_peripheral_register 1 [10; 11; 12] [] in
  let pending := repeat Byte.x2a 10 in
  let '(actual_length, _, _) :=
    soc_peripheral_rx_dma_xfer pending (repeat Byte.x00 16) 16 in
  actual_length = 10%nat /\
  soc_peripheral_interrupt_status device (hub_dma_complete DMA_RX_DONE 0 table)
  = Some SOC_PERIPHERAL_ISR_DMA_RX_DONE_BM.
Proof. split; reflexivity. Qed.

Lemma soc_peripheral_register_spec_witness :
  valid_channel_triple [10; 11; 12] /\
  (soc_peripheral_register 2 [10; 11; 12] [Peripheral [1; 2; 3] None 0]).1
  = Some 1%nat /\
  soc_peripheral_register 1 [10; 11; 12] [Peripheral [1; 2; 3] None 0]
  = (None, [Peripheral [1; 2; 3] None 0]).
Proof.
  assert (valid_channel_triple [10; 11; 12]) as Hc by reflexivity.
  split; [exact Hc |]. split.
  - destruct (soc_peripheral_register_spec 2 [10; 11; 12]
                [Peripheral [1; 2; 3] None 0] Hc) as [Hfree _].
    simpl in Hfree. destruct Hfree as (_ & _ & Hnew & _); [lia |].
    reflexivity.
  - destruct (soc_peripheral_register_spec 1 [10; 11; 12]
                [Peripheral [1; 2; 3] None 0] Hc) as [_ Hfull].
    simpl in Hfull. destruct Hfull as [Hnull Hsame]; [lia |].
    reflexivity.
Defined.

Lemma soc_peripheral_rx_dma_xfer_spec_witness :
  ((soc_peripheral_rx_dma_xfer [Byte.x01; Byte.x02; Byte.x03]
      [Byte.x00; Byte.x00] 2).1.1 <= 2)%nat /\
  (soc_peripheral_rx_dma_xfer [Byte.x01; Byte.x02; Byte.x03]
     [Byte.x00; Byte.x00] 0).1.2 = [Byte.x00; Byte.x00].
Proof.
  split.
  - apply (soc_peripheral_rx_dma_xfer_spec [Byte.x01; Byte.x02; Byte.x03]
             [Byte.x00; Byte.x00] 2).
  - destruct (soc_peripheral_rx_dma_xfer_spec [Byte.x01; Byte.x02; Byte.x03]
                [Byte.x00; Byte.x00] 0) as (_ & _ & _ & _ & _ & Hzero & _).
    apply Hzero. reflexivity.
Defined.

Lemma interrupt_status_bits_witness :
  exists status,
    soc_peripheral_interrupt_status (Some 0%nat)
      (hub_dma_complete DMA_RX_DONE 0 [Peripheral [10; 11; 12] None 0])
    = Some status /\
    Z.land status SOC_PERIPHERAL_ISR_DMA_RX_DONE_BM <> 0 /\
    Z.land status SOC_PERIPHERAL_ISR_DMA_TX_DONE_BM = 0.
Proof.
  destruct interrupt_status_bits as (_ & _ & _ & _ & _ & Hdone).
  apply (Hdone [Peripheral [10; 11; 12] None 0] 0%nat
           (Peripheral [10; 11; 12] None 0)); reflexivity.
Defined.

(** X8.  No template reads a register before writing it: the results of
    the five functions do not depend on what the registers held on entry. *)
Lemma entry_registers_irrelevant (ieble ink : Z) (e1 e2 : XS1.reg -> Z)
  (s : ctx) (mask : Z) :
  rtos_interrupt_mask_get ieble e1 s = rtos_interrupt_mask_get ieble e2 s /\
  rtos_interrupt_mask_all ieble e1 s = rtos_interrupt_mask_all ieble e2 s /\
  rtos_interrupt_unmask_all ieble e1 s = rtos_interrupt_unmask_all ieble e2 s /\
  rtos_interrupt_mask_set ieble e1 mask s =
  rtos_interrupt_mask_set ieble e2 mask s /\
  rtos_isr_running ink e1 s = rtos_isr_running ink e2 s.
Proof.
  unfold rtos_interrupt_mask_set.
  destruct (negb (mask =? 0)); repeat split.
Qed.

(** * Sequences of mask calls *)

Lemma lor_ldiff_same (a m : Z) : Z.lor (Z.ldiff a m) m = Z.lor a m.
Proof. bitwise. destruct (Z.testbit a i), (Z.testbit m i); reflexivity. Qed.

Lemma lor_lor_same (a m : Z) : Z.lor (Z.lor a m) m = Z.lor a m.
Proof. bitwise. destruct (Z.testbit a i), (Z.testbit m i); reflexivity. Qed.

Lemma ldiff_disjoint (a m : Z) : Z.land a m = 0 -> Z.ldiff a m = a.
Proof.
  intros Hoff. bitwise.
  assert (Z.testbit (Z.land a m) i = false) as Hbit
    by (rewrite Hoff; apply Z.bits_0).
  rewrite Z.land_spec in Hbit.
  destruct (Z.testbit a i), (Z.testbit m i); simpl in *; congruence.
Qed.

Lemma lor_absorb (a m : Z) : Z.land a m = m -> Z.lor a m = a.
Proof.
  intros Hon. bitwise.
  assert (Z.testbit (Z.land a m) i = Z.testbit m i) as Hbit
    by (rewrite Hon; reflexivity).
  rewrite Z.land_spec in Hbit.
  destruct (Z.testbit a i), (Z.testbit m i); simpl in *; congruence.
Qed.

(** A one-bit mask selects nothing or itself. *)
Lemma land_pow2_cases (x k : Z) :
  0 <= k -> Z.land x (2 ^ k) = 0 \/ Z.land x (2 ^ k) = 2 ^ k.
Proof.
  intros Hk. destruct (Z.testbit x k) eqn:Hbit; [right | left]; bitwise;
    rewrite Z.pow2_bits_eqb by exact Hk;
    destruct (Z.eqb_spec k i) as [<- | Hne];
    rewrite ?Hbit, ?andb_false_r; reflexivity.
Qed.

Lemma ctx_eq (s s' : ctx) : sr s = sr s' -> s = s'.
Proof. destruct s, s'. simpl. congruence. Qed.

Section rtos_interrupt_sequences.

Variables XS1_SR_IEBLE_MASK XS1_SR_INK_MASK : Z.
Variable entry : XS1.reg -> Z.

Local Abbreviation rtos_interrupt_mask_get :=
  (rtos_interrupt_mask_get XS1_SR_IEBLE_MASK entry).
Local Abbreviation rtos_interrupt_mask_all :=
  (rtos_interrupt_mask_all XS1_SR_IEBLE_MASK entry).
Local Abbreviation rtos_interrupt_unmask_all :=
  (rtos_interrupt_unmask_all XS1_SR_IEBLE_MASK entry).
Local Abbreviation rtos_interrupt_mask_set :=
  (rtos_interrupt_mask_set XS1_SR_IEBLE_MASK entry).
Local Abbreviation rtos_isr_running := (rtos_isr_running XS1_SR_INK_MASK entry).
Local Abbreviation interrupts_enabled := (interrupts_enabled XS1_SR_IEBLE_MASK).
Local Abbreviation run_op := (run_op XS1_SR_IEBLE_MASK entry).
Local Abbreviation run_ops := (run_ops XS1_SR_IEBLE_MASK entry).
Local Abbreviation mask_reachable := (mask_reachable XS1_SR_IEBLE_MASK).

Lemma run_ops_frame (body : list mask_op) (s : ctx) :
  Z.ldiff (sr (run_ops body s)) XS1_SR_IEBLE_MASK =
  Z.ldiff (sr s) XS1_SR_IEBLE_MASK.
Proof.
  apply (run_ops_preserves XS1_SR_IEBLE_MASK entry
           (fun s' => Z.ldiff (sr s') XS1_SR_IEBLE_MASK =
                      Z.ldiff (sr s) XS1_SR_IEBLE_MASK)); [| reflexivity].
  apply Forall_forall. intros o _ s' Hs'. now apply run_op_frame.
Qed.

(** Inside a region that never unmasks, the status word is the entry word
    with the interrupt-enable bits cleared. *)
Lemma masked_region_sr (body : list mask_op) (s : ctx) :
  forallb never_unmasks body = true ->
  sr (run_ops body (rtos_interrupt_mask_all s).2) =
  Z.ldiff (sr s) XS1_SR_IEBLE_MASK.
Proof.
  intros Hquiet.
  assert (Z.land (sr (run_ops body (rtos_interrupt_mask_all s).2))
            XS1_SR_IEBLE_MASK = 0) as Hoff.
  { apply never_unmasks_run_ops; [exact Hquiet |].
    rewrite rtos_interrupt_mask_all_eq. apply land_ldiff_same. }
  rewrite <- (ldiff_disjoint _ _ Hoff).
  rewrite run_ops_frame, rtos_interrupt_mask_all_eq. apply ldiff_ldiff_same.
Qed.

Lemma mask_all_reachable (s0 s : ctx) :
  mask_reachable s0 s ->
  sr (rtos_interrupt_mask_all s).2 = Z.ldiff (sr s0) XS1_SR_IEBLE_MASK.
Proof.
  rewrite rtos_interrupt_mask_all_eq. simpl.
  intros [-> | [-> | ->]];
    auto using ldiff_ldiff_same, ldiff_lor_same.
Qed.

Lemma unmask_all_reachable (s0 s : ctx) :
  mask_reachable s0 s ->
  sr (rtos_interrupt_unmask_all s).2 = Z.lor (sr s0) XS1_SR_IEBLE_MASK.
Proof.
  rewrite rtos_interrupt_unmask_all_eq. simpl.
  intros [-> | [-> | ->]];
    auto using lor_ldiff_same, lor_lor_same.
Qed.

Lemma mask_set_reachable (mask : Z) (s0 s : ctx) :
  mask_reachable s0 s -> mask_reachable s0 (rtos_interrupt_mask_set mask s).2.
Proof.
  intros Hs. rewrite rtos_interrupt_mask_set_eq.
  destruct (decide (mask = 0)); [exact Hs |].
  right. right. now apply unmask_all_reachable.
Qed.

Lemma run_op_reachable (o : mask_op) (s0 : ctx) :
  forall s, mask_reachable s0 s -> mask_reachable s0 (run_op o s).
Proof.
  induction o as [ | | | mask | body IH] using mask_op_nested_ind;
    intros s Hs.
  - change (run_op op_mask_get s) with (rtos_interrupt_mask_get s).2.
    rewrite rtos_interrupt_mask_get_eq. exact Hs.
  - right. left. now apply mask_all_reachable.
  - right. right. now apply unmask_all_reachable.
  - now apply mask_set_reachable.
  - rewrite run_op_save_restore. apply mask_set_reachable.
    apply (run_ops_preserves XS1_SR_IEBLE_MASK entry (mask_reachable s0));
      [exact IH |].
    right. left. now apply mask_all_reachable.
Qed.

Lemma run_ops_reachable (body : list mask_op) (s : ctx) :
  mask_reachable s (run_ops body s).
Proof.
  apply (run_ops_preserves XS1_SR_IEBLE_MASK entry (mask_reachable s));
    [| left; reflexivity].
  apply Forall_forall. intros o _. apply run_op_reachable.
Qed.

(** X4.  Whatever mask calls a thread makes, however nested, its status
    register ends as one of three words: the one it started with, that one
    with the interrupt-enable bits cleared, or that one with them set. *)
Theorem mask_calls_reach_three_words (body : list mask_op) (s : ctx) :
  sr (run_ops body s) = sr s \/
  sr (run_ops body s) = Z.ldiff (sr s) XS1_SR_IEBLE_MASK \/
  sr (run_ops body s) = Z.lor (sr s) XS1_SR_IEBLE_MASK.
Proof. apply run_ops_reachable. Qed.

(** X2.  [rtos_interrupt_mask_all] and [rtos_interrupt_unmask_all] override
    every mask call made before them: after any sequence of calls they
    leave the context they would have left if called first. *)
Theorem last_mask_call_decides (body : list mask_op) (s : ctx) :
  (rtos_interrupt_mask_all (run_ops body s)).2 =
  (rtos_interrupt_mask_all s).2 /\
  (rtos_interrupt_unmask_all (run_ops body s)).2 =
  (rtos_interrupt_unmask_all s).2.
Proof.
  pose proof (run_ops_reachable body s) as Hreach.
  split; apply ctx_eq.
  - rewrite (mask_all_reachable s _ Hreach). reflexivity.
  - rewrite (unmask_all_reachable s _ Hreach). reflexivity.
Qed.

(** X3.  A save made inside a region that never unmasks reads zero and
    changes nothing: nested critical sections always save a zero mask. *)
Theorem nested_mask_all_saves_zero (body : list mask_op) (s : ctx) :
  forallb never_unmasks body = true ->
  let inner := run_ops body (rtos_interrupt_mask_all s).2 in
  rtos_interrupt_mask_all inner = (0, inner).
Proof.
  intros Hquiet inner.
  assert (Z.land (sr inner) XS1_SR_IEBLE_MASK = 0) as Hoff.
  { subst inner. apply never_unmasks_run_ops; [exact Hquiet |].
    rewrite rtos_interrupt_mask_all_eq. apply land_ldiff_same. }
  rewrite rtos_interrupt_mask_all_eq, Hoff. f_equal. apply ctx_eq. simpl.
  now apply ldiff_disjoint.
Qed.

(** X1.  With a one-bit interrupt-enable mask, a critical section
    [saved = rtos_interrupt_mask_all(); body; rtos_interrupt_mask_set(saved)]
    whose body never unmasks hands back the very context it was entered
    with: the whole status register, not only the enabled/disabled state. *)
Theorem critical_section_round_trip (k : Z) (body : list mask_op) (s : ctx) :
  0 <= k -> XS1_SR_IEBLE_MASK = 2 ^ k ->
  forallb never_unmasks body = true ->
  run_op (op_save_restore body) s = s.
Proof.
  intros Hk Hmask Hquiet. apply ctx_eq.
  rewrite run_op_save_restore, rtos_interrupt_mask_set_eq.
  pose proof (masked_region_sr body s Hquiet) as Hinner.
  rewrite rtos_interrupt_mask_all_eq in *. cbn [fst snd] in *.
  destruct (decide (Z.land (sr s) XS1_SR_IEBLE_MASK = 0)) as [Hoff | Hon].
  - cbn [snd]. rewrite Hinner. now apply ldiff_disjoint.
  - rewrite rtos_interrupt_unmask_all_eq. cbn [snd sr].
    rewrite Hinner, lor_ldiff_same. apply lor_absorb.
    destruct (land_pow2_cases (sr s) k Hk) as [Hzero | Hone];
      rewrite <- Hmask in *; [contradiction | exact Hone].
Qed.


(** X6.  With a one-bit interrupt-enable mask, writing back the mask just
    read changes nothing:
    [rtos_interrupt_mask_set(rtos_interrupt_mask_get())] is a no-op. *)
Theorem mask_set_of_mask_get (k : Z) (s : ctx) :
  0 <= k -> XS1_SR_IEBLE_MASK = 2 ^ k ->
  rtos_interrupt_mask_set (rtos_interrupt_mask_get s).1 s = (tt, s).
Proof.
  intros Hk Hmask.
  rewrite rtos_interrupt_mask_get_eq, rtos_interrupt_mask_set_eq. cbn [fst].
  destruct (decide (Z.land (sr s) XS1_SR_IEBLE_MASK = 0)) as [Hoff | Hon];
    [reflexivity |].
  rewrite rtos_interrupt_unmask_all_eq. f_equal. apply ctx_eq. simpl.
  apply lor_absorb.
  destruct (land_pow2_cases (sr s) k Hk) as [Hzero | Hone];
    rewrite <- Hmask in *; [contradiction | exact Hone].
Qed.

(** X7.  A 32-bit status register stays 32 bits wide through any sequence
    of mask calls, and the values then read by [rtos_interrupt_mask_get]
    and [rtos_isr_running] fit a [uint32_t]. *)
Theorem mask_calls_stay_uint32 (body : list mask_op) (s : ctx) :
  uint32 XS1_SR_IEBLE_MASK -> uint32 (sr s) ->
  uint32 (sr (run_ops body s)) /\
  uint32 (rtos_interrupt_mask_get (run_ops body s)).1 /\
  uint32 (rtos_isr_running (run_ops body s)).1.
Proof.
  intros Hmask Hsr.
  assert (uint32 (sr (run_ops body s))) as Hafter.
  { destruct (run_ops_reachable body s) as [-> | [-> | ->]];
      auto using uint32_ldiff, uint32_lor. }
  rewrite rtos_interrupt_mask_get_eq, rtos_isr_running_eq. cbn [fst].
  auto using uint32_land.
Qed.

Lemma balanced_run_op (o : mask_op) :
  saves_every_mask_all o = true ->
  forall s, Z.land (sr s) XS1_SR_IEBLE_MASK <> 0 ->
            Z.land (sr (run_op o s)) XS1_SR_IEBLE_MASK <> 0.
Proof.
  assert (forall a, Z.land a XS1_SR_IEBLE_MASK <> 0 ->
                    Z.land (Z.lor a XS1_SR_IEBLE_MASK) XS1_SR_IEBLE_MASK <> 0)
    as Hset.
  { intros a Ha. rewrite land_lor_same. intros Hm.
    rewrite Hm, Z.land_0_r in Ha. contradiction. }
  destruct o as [ | | | mask | body]; simpl saves_every_mask_all;
    intros Hbal s Hs.
  - change (run_op op_mask_get s) with (rtos_interrupt_mask_get s).2.
    rewrite rtos_interrupt_mask_get_eq. exact Hs.
  - discriminate.
  - now apply Hset.
  - change (run_op (op_mask_set mask) s)
      with (rtos_interrupt_mask_set mask s).2.
    rewrite rtos_interrupt_mask_set_eq.
    destruct (decide (mask = 0)); [exact Hs | now apply Hset].
  - rewrite run_op_save_restore, rtos_interrupt_mask_set_eq.
    rewrite rtos_interrupt_mask_all_eq. cbn [fst snd].
    destruct (decide (Z.land (sr s) XS1_SR_IEBLE_MASK = 0));
      [contradiction |].
    rewrite rtos_interrupt_unmask_all_eq. cbn [snd sr].
    rewrite land_lor_same. intros Hm.
    rewrite Hm, Z.land_0_r in Hs. contradiction.
Qed.

(** X9.  If interrupts are enabled and every [rtos_interrupt_mask_all] of a
    sequence is paired with its [rtos_interrupt_mask_set(saved)], the
    sequence ends with interrupts enabled, whatever the critical sections
    do inside. *)
Theorem balanced_calls_end_enabled (body : list mask_op) (s : ctx) :
  forallb saves_every_mask_all body = true ->
  interrupts_enabled s ->
  interrupts_enabled (run_ops body s).
Proof.
  rewrite !interrupts_enabled_iff. intros Hbal.
  apply (run_ops_preserves XS1_SR_IEBLE_MASK entry
           (fun s => Z.land (sr s) XS1_SR_IEBLE_MASK <> 0)).
  rewrite forallb_forall in Hbal. apply Forall_forall.
  intros o Ho. apply balanced_run_op, Hbal, list_elem_of_In, Ho.
Qed.

End rtos_interrupt_sequences.

Lemma critical_section_round_trip_witness :
  0 <= 1 /\ xs1_ieble_mask = 2 ^ 1 /\
  forallb never_unmasks [op_mask_get; op_save_restore [op_mask_all]] = true /\
  run_op xs1_ieble_mask regs0
    (op_save_restore [op_mask_get; op_save_restore [op_mask_all]])
    (Ctx 0x13) = Ctx 0x13.
Proof.
  assert (0 <= 1) as Hk by lia.
  assert (xs1_ieble_mask = 2 ^ 1) as Hmask by reflexivity.
  assert (forallb never_unmasks
            [op_mask_get; op_save_restore [op_mask_all]] = true)
    as Hquiet by reflexivity.
  split; [exact Hk |]. split; [exact Hmask |]. split; [exact Hquiet |].
  apply (critical_section_round_trip xs1_ieble_mask regs0 1 _ (Ctx 0x13)
           Hk Hmask Hquiet).
Defined.

Lemma nested_mask_all_saves_zero_witness :
  forallb never_unmasks [op_mask_get; op_mask_set 0] = true /\
  rtos_interrupt_mask_all xs1_ieble_mask regs0
    (run_ops xs1_ieble_mask regs0 [op_mask_get; op_mask_set 0]
       (rtos_interrupt_mask_all xs1_ieble_mask regs0 (Ctx 0x13)).2)
  = (0, Ctx 0x11).
Proof.
  assert (forallb never_unmasks [op_mask_get; op_mask_set 0] = true)
    as Hquiet by reflexivity.
  split; [exact Hquiet |].
  apply (nested_mask_all_saves_zero xs1_ieble_mask regs0 _ (Ctx 0x13) Hquiet).
Defined.


Lemma mask_set_of_mask_get_witness :
  0 <= 1 /\ xs1_ieble_mask = 2 ^ 1 /\
  rtos_interrupt_mask_set xs1_ieble_mask regs0
    (rtos_interrupt_mask_get xs1_ieble_mask regs0 (Ctx 0x13)).1 (Ctx 0x13)
  = (tt, Ctx 0x13).
Proof.
  assert (0 <= 1) as Hk by lia.
  assert (xs1_ieble_mask = 2 ^ 1) as Hmask by reflexivity.
  split; [exact Hk |]. split; [exact Hmask |].
  apply (mask_set_of_mask_get xs1_ieble_mask regs0 1 (Ctx 0x13) Hk Hmask).
Defined.

Lemma mask_calls_stay_uint32_witness :
  uint32 xs1_ieble_mask /\ uint32 0xFFFFFFFD /\
  uint32 (sr (run_ops xs1_ieble_mask regs0
                [op_unmask_all; op_save_restore [op_unmask_all]]
                (Ctx 0xFFFFFFFD))).
Proof.
  assert (uint32 xs1_ieble_mask) as Hmask
    by (unfold uint32, xs1_ieble_mask; lia).
  assert (uint32 0xFFFFFFFD) as Hsr by (unfold uint32; lia).
  split; [exact Hmask |]. split; [exact Hsr |].
  apply (mask_calls_stay_uint32 xs1_ieble_mask xs1_ink_mask regs0
           [op_unmask_all; op_save_restore [op_unmask_all]]
           (Ctx 0xFFFFFFFD) Hmask Hsr).
Defined.

Lemma balanced_calls_end_enabled_witness :
  forallb saves_every_mask_all
    [op_save_restore [op_mask_set 0; op_save_restore []]; op_mask_get] = true /\
  interrupts_enabled xs1_ieble_mask (Ctx 0x2) /\
  interrupts_enabled xs1_ieble_mask
    (run_ops xs1_ieble_mask regs0
       [op_save_restore [op_mask_set 0; op_save_restore []]; op_mask_get]
       (Ctx 0x2)).
Proof.
  assert (forallb saves_every_mask_all
            [op_save_restore [op_mask_set 0; op_save_restore []];
             op_mask_get] = true) as Hbal by reflexivity.
  assert (interrupts_enabled xs1_ieble_mask (Ctx 0x2)) as Hon
    by (exists 1; repeat split; lia).
  split; [exact Hbal |]. split; [exact Hon |].
  apply (balanced_calls_end_enabled xs1_ieble_mask regs0 _ (Ctx 0x2)
           Hbal Hon).
Defined.

(** * Index constants of the hub and of the board *)

Section index_constants.

Local Open Scope nat_scope.

(** X10.  In a channel array of the declared size each of the three roles
    indexes an element, no two roles index the same one, and the roles
    leave no element of the array without a role. *)
Theorem channel_roles_index_triple (c : list chanend) :
  valid_channel_triple c ->
  is_Some (c !! SOC_PERIPHERAL_FROM_DMA_CH) /\
  is_Some (c !! SOC_PERIPHERAL_TO_DMA_CH) /\
  is_Some (c !! SOC_PERIPHERAL_CONTROL_CH) /\
  SOC_PERIPHERAL_FROM_DMA_CH <> SOC_PERIPHERAL_TO_DMA_CH /\
  SOC_PERIPHERAL_FROM_DMA_CH <> SOC_PERIPHERAL_CONTROL_CH /\
  SOC_PERIPHERAL_TO_DMA_CH <> SOC_PERIPHERAL_CONTROL_CH /\
  (forall i, is_Some (c !! i) ->
             i = SOC_PERIPHERAL_FROM_DMA_CH \/
             i = SOC_PERIPHERAL_TO_DMA_CH \/
             i = SOC_PERIPHERAL_CONTROL_CH).
Proof.
  unfold valid_channel_triple, SOC_PERIPHERAL_CHANNEL_COUNT,
    SOC_PERIPHERAL_FROM_DMA_CH, SOC_PERIPHERAL_TO_DMA_CH,
    SOC_PERIPHERAL_CONTROL_CH.
  intros Hlen. rewrite !lookup_lt_is_Some, Hlen.
  repeat split; try lia.
  intros i Hi. apply lookup_lt_is_Some in Hi. lia.
Qed.


End index_constants.

Lemma channel_roles_index_triple_witness :
  valid_channel_triple [10; 11; 12] /\
  is_Some ([10; 11; 12] !! SOC_PERIPHERAL_CONTROL_CH).
Proof.
  assert (valid_channel_triple [10; 11; 12]) as Hc by reflexivity.
  split; [exact Hc |].
  apply (channel_roles_index_triple [10; 11; 12] Hc).
Defined.

